(** * The [#[salsa::db_view]] attribute macro (salsa-macros/src/db_view.rs)

    A shallow embedding of the expansion performed by [db_view]: argument
    validation, parsing of the annotated trait, derivation of the hidden
    trait and method names, the supertrait mutation, and the construction
    of the hidden view trait and its blanket implementation.

    Text is a list of Unicode scalar values.  The ASCII range is classified
    by hand; above it the Unicode Character Database is a parameter
    ([UnicodeTables]), so every property proved below holds whatever its
    contents.  The syntax tree is a small fragment of [syn]'s: only the parts
    the macro reads, writes or builds.  The trait parser of [syn] is an
    external collaborator and is a parameter of [db_view]. *)

From Stdlib Require Import Strings.String Strings.Ascii Lists.List Bool Arith NArith Lia.
Import ListNotations.
Open Scope string_scope.
Open Scope list_scope.
Set Warnings "-register-all".

(** ** ASCII characters *)

Definition is_upper (c : ascii) : bool :=
  let n := nat_of_ascii c in (65 <=? n)%nat && (n <=? 90)%nat.
Definition is_lower (c : ascii) : bool :=
  let n := nat_of_ascii c in (97 <=? n)%nat && (n <=? 122)%nat.
Definition is_digit (c : ascii) : bool :=
  let n := nat_of_ascii c in (48 <=? n)%nat && (n <=? 57)%nat.
Definition is_alphabetic (c : ascii) : bool := is_upper c || is_lower c.
Definition is_alphanumeric (c : ascii) : bool := is_alphabetic c || is_digit c.

(** [char::to_lowercase] on ASCII. *)
Definition to_lower (c : ascii) : ascii :=
  if is_upper c then ascii_of_nat (nat_of_ascii c + 32)%nat else c.

(** ** Unicode text *)

(** A Rust [char]: an ASCII character, or a code point from 128 on. *)
Inductive uchar :=
| UAscii (a : ascii)
| UOther (cp : N).

(** The text of a [String] or [&str], as its sequence of [char]s. *)
Definition Text := list uchar.

(** An ASCII string literal as text. *)
Definition txt (s : string) : Text := map UAscii (list_ascii_of_string s).

Definition uchar_eqb (x y : uchar) : bool :=
  match x, y with
  | UAscii a, UAscii b => Ascii.eqb a b
  | UOther n, UOther m => N.eqb n m
  | _, _ => false
  end.

Fixpoint text_eqb (x y : Text) : bool :=
  match x, y with
  | [], [] => true
  | c :: x', d :: y' => uchar_eqb c d && text_eqb x' y'
  | _, _ => false
  end.

(** The Unicode Character Database above ASCII: for a code point from 128
    on, the properties read by [char::is_alphabetic], [char::is_numeric]
    (general category [Nd], [Nl] or [No]), [char::is_lowercase],
    [char::is_uppercase], the full lower-case mapping of
    [char::to_lowercase], and [XID_Start] and [XID_Continue], which the
    compiler's identifier check reads. *)
Record UnicodeTables := mkUnicodeTables {
  u_alphabetic : N -> bool;
  u_numeric : N -> bool;
  u_lowercase : N -> bool;
  u_uppercase : N -> bool;
  u_to_lowercase : N -> Text;
  u_xid_start : N -> bool;
  u_xid_continue : N -> bool }.

(** Sample tables for running examples: the Unicode data of the Latin-1
    letters [À]..[Þ] (upper case, lower-cased by adding 32) and [ß]..[ÿ]
    (lower case), the multiplication and division signs excepted; every other
    code point above ASCII is classified as none of these. *)
Definition latin1_upper (n : N) : bool :=
  (192 <=? n)%N && (n <=? 222)%N && negb (n =? 215)%N.
Definition latin1_lower (n : N) : bool :=
  (223 <=? n)%N && (n <=? 255)%N && negb (n =? 247)%N.
Definition latin1_tables : UnicodeTables :=
  mkUnicodeTables
    (fun n => latin1_upper n || latin1_lower n) (fun _ => false)
    latin1_lower latin1_upper
    (fun n => if latin1_upper n then [UOther (n + 32)] else [UOther n])
    (fun n => latin1_upper n || latin1_lower n)
    (fun n => latin1_upper n || latin1_lower n).

(** ** Identifiers ([proc_macro2::Ident]) *)

Record Ident := mkIdent { sym : Text; raw : bool }.

(** [impl Display for Ident]: a raw identifier prints with its [r#] prefix. *)
Definition ident_display (i : Ident) : Text :=
  if raw i then txt "r#" ++ sym i else sym i.

(** ** Tokens ([proc_macro::TokenStream]), with groups flattened into
    their delimiters. *)

Inductive Delimiter := Parenthesis | Brace | Bracket | NoDelim.

Inductive TokenTree :=
| TT_Ident (i : Ident)
| TT_Punct (c : ascii)
| TT_Literal (text : string)
| TT_Open (d : Delimiter)
| TT_Close (d : Delimiter).

Definition TokenStream := list TokenTree.
(** ** Syntax tree (the fragment of [syn] the macro uses) *)

Definition Path := list Ident.

Inductive Visibility :=
| Vis_Public                       (* pub *)
| Vis_Restricted (in_path : Path)  (* pub(crate), pub(in path), ... *)
| Vis_Inherited.                   (* no visibility *)

Inductive Attribute :=
| Attr_Doc (text : string)         (* #[doc = text], i.e. /// text *)
| Attr_DocHidden                   (* #[doc(hidden)] *)
| Attr_Other (tokens : TokenStream).

Inductive TypeParamBound :=
| TPB_Trait (path : Path)
| TPB_Lifetime (name : string)
| TPB_Verbatim (tokens : TokenStream).

Inductive GenericParam :=
| GP_Type (name : Ident) (bounds : list TypeParamBound)
| GP_Lifetime (name : string)
| GP_Const (name : Ident) (ty : TokenStream).

Record Generics := mkGenerics {
  params : list GenericParam;
  where_clause : option TokenStream }.

Definition Generics_default : Generics := mkGenerics [] None.

Inductive Ty :=
| Ty_Path (path : Path)            (* T *)
| Ty_TraitObject (path : Path)     (* dyn Trait *)
| Ty_Verbatim (tokens : TokenStream).

Inductive Expr :=
| E_SelfValue                                   (* self *)
| E_Path (path : Path)                          (* a local *)
| E_MethodCall (receiver : Expr) (method : string)
    (turbofish : list Ty) (args : list Expr)    (* r.m::<..>(args) *)
| E_Closure (param : Ident) (body : Expr)       (* |p| body *)
| E_Verbatim (tokens : TokenStream).

Inductive Stmt :=
| S_Let (name : Ident) (init : Expr)            (* let name = init; *)
| S_Expr (e : Expr)                             (* e; *)
| S_Verbatim (tokens : TokenStream).

Definition Block := list Stmt.

Inductive FnArg :=
| FA_RefSelf                                    (* &self *)
| FA_Other (tokens : TokenStream).

Record Signature := mkSignature {
  sig_ident : Ident;
  sig_inputs : list FnArg;
  sig_output : option Ty }.

Inductive TraitItem :=
| TI_Fn (attrs : list Attribute) (sig : Signature) (default : option Block)
| TI_Other (tokens : TokenStream).

(** [syn::ItemTrait]; [supertraits] is the [Punctuated<_, Token![+]>]
    seen as the list of its values. *)
Record ItemTrait := mkItemTrait {
  it_attrs : list Attribute;
  it_vis : Visibility;
  it_unsafety : bool;
  it_auto : bool;
  it_ident : Ident;
  it_generics : Generics;
  it_supertraits : list TypeParamBound;
  it_items : list TraitItem }.

Inductive ImplItem :=
| II_Fn (attrs : list Attribute) (sig : Signature) (body : Block).

Record ItemImpl := mkItemImpl {
  impl_attrs : list Attribute;
  impl_generics : Generics;
  impl_trait : option Path;
  impl_self_ty : Ty;
  impl_items : list ImplItem }.

Inductive Item :=
| Item_Trait (t : ItemTrait)
| Item_Impl (i : ItemImpl)
| Item_Use (path : Path) (rename : Ident)                  (* use path as rename; *)
| Item_AnonConst (ty : Ty) (block : list Item)            (* const _: ty = { .. }; *)
| Item_Other (tokens : TokenStream).

(** The expansion result, read as the sequence of top-level items of the
    returned token stream.  A [syn::Error::to_compile_error] item is a
    [compile_error!] invocation; [origin] records which of the three
    error returns of [db_view] produced it. *)
Inductive ErrOrigin :=
| ArgumentError   (* parse_macro_input!(args as syn::parse::Nothing) *)
| SyntaxError     (* parse_macro_input!(input as syn::ItemTrait) *)
| ExpandError.    (* Err(err) of DbViewMacro::expand *)

Record Error := mkError { err_msg : string }.

Inductive OutItem :=
| Decl (it : Item)
| CompileError (origin : ErrOrigin) (e : Error).

(** The proc macro either returns a token stream or panics. *)
Inductive Output :=
| Emitted (out : list OutItem)
| Panicked.

Inductive Result (A : Type) :=
| Ok (a : A)
| Err (e : Error).
Arguments Ok {A} a.
Arguments Err {A} e.

(** [syn::parse::<syn::parse::Nothing>]: [Nothing::parse] consumes no token,
    and [Parser::parse2] then fails on the first token
    [span_of_unexpected_ignoring_nones] finds.  That function steps over
    None-delimited groups (descending into them), so on the flattened stream
    it skips the delimiters of None-delimited groups and reports any other
    token. *)
Fixpoint span_of_unexpected_ignoring_nones (ts : TokenStream) : option TokenTree :=
  match ts with
  | [] => None
  | TT_Open NoDelim :: rest | TT_Close NoDelim :: rest =>
      span_of_unexpected_ignoring_nones rest
  | tok :: _ => Some tok
  end.

Definition parse_nothing (args : TokenStream) : Result unit :=
  match span_of_unexpected_ignoring_nones args with
  | None => Ok tt
  | Some _ => Err (mkError "unexpected token")
  end.

(** ** Hygiene *)

(** Modelled from the spec: [crate::hygiene::Hygiene] (hygiene.rs is not
    part of the sources).  The spec describes a per-expansion provider of
    identifiers that cannot be captured by identifiers already visible at the
    call site, memoised per symbolic name.  [Hygiene::from(&input)] records
    the (displayed) identifiers of all the input tokens; [ident(text)]
    returns [text], with underscores appended until it is none of them.
    Being a function of its arguments, it returns the same identifier for the
    same symbolic name. *)
Record Hygiene := mkHygiene { user_tokens : list Text }.

Fixpoint push_idents (ts : TokenStream) : list Text :=
  match ts with
  | [] => []
  | TT_Ident i :: rest => ident_display i :: push_idents rest
  | _ :: rest => push_idents rest
  end.

Definition Hygiene_from (input : TokenStream) : Hygiene :=
  mkHygiene (push_idents input).

Fixpoint fresh_text (fuel : nat) (used : list Text) (text : Text) : Text :=
  if existsb (text_eqb text) used then
    match fuel with
    | O => text
    | S fuel' => fresh_text fuel' used (text ++ txt "_")
    end
  else text.

Definition Hygiene_ident (h : Hygiene) (text : string) : Ident :=
  mkIdent (fresh_text (length (user_tokens h)) (user_tokens h) (txt text)) false.

(** ** [DbViewMacro] *)

Record DbViewMacro := mkDbViewMacro {
  hygiene : Hygiene;
  input : ItemTrait;
  DbViewTrait : Ident;
  db_view_method : Ident }.

(** [self.input.supertraits.push(parse_quote! { #DbViewTrait })]. *)
Definition add_supertrait (self : DbViewMacro) : DbViewMacro :=
  let t := input self in
  mkDbViewMacro (hygiene self)
    (mkItemTrait (it_attrs t) (it_vis t) (it_unsafety t) (it_auto t)
       (it_ident t) (it_generics t)
       (it_supertraits t ++ [TPB_Trait [DbViewTrait self]])
       (it_items t))
    (DbViewTrait self) (db_view_method self).

(** The four [///] lines written above the generated trait and method. *)
Definition view_docs : list Attribute :=
  [ Attr_Doc " Internal salsa method generated by the `salsa::db_view` macro";
    Attr_Doc " that registers this database view trait with the salsa database.";
    Attr_Doc "";
    Attr_Doc " Nothing to see here." ].

(** [#vis trait #DbViewTrait { fn #db_view_method(&self); }]. *)
Definition view_trait (self : DbViewMacro) : ItemTrait :=
  let vis := it_vis (input self) in
  mkItemTrait (view_docs ++ [Attr_DocHidden]) vis false false
    (DbViewTrait self) Generics_default []
    [TI_Fn [] (mkSignature (db_view_method self) [FA_RefSelf] None) None].

Definition salsa_ident : Ident := mkIdent (txt "salsa") false.
Definition Database_ident : Ident := mkIdent (txt "Database") false.
Definition t_ident : Ident := mkIdent (txt "t") false.

(** [const _: () = { use salsa::Database as #Database;
      impl<#DB: #Database> #DbViewTrait for #DB { fn #db_view_method(&self) {
        let #views = self.views_of_self();
        #views.add::<dyn #UserTrait>(|t| t, |t| t); } } };] *)
Definition view_impl (self : DbViewMacro) : Item :=
  let DB := Hygiene_ident (hygiene self) "DB" in
  let Database := Hygiene_ident (hygiene self) "Database" in
  let views := Hygiene_ident (hygiene self) "views" in
  let UserTrait := it_ident (input self) in
  Item_AnonConst (Ty_Verbatim [TT_Open Parenthesis; TT_Close Parenthesis])
    [ Item_Use [salsa_ident; Database_ident] Database;
      Item_Impl
        (mkItemImpl [Attr_DocHidden]
           (mkGenerics [GP_Type DB [TPB_Trait [Database]]] None)
           (Some [DbViewTrait self]) (Ty_Path [DB])
           [II_Fn view_docs
              (mkSignature (db_view_method self) [FA_RefSelf] None)
              [ S_Let views (E_MethodCall E_SelfValue "views_of_self" [] []);
                S_Expr (E_MethodCall (E_Path [views]) "add"
                          [Ty_TraitObject [UserTrait]]
                          [E_Closure t_ident (E_Path [t_ident]);
                           E_Closure t_ident (E_Path [t_ident])]) ]]) ].

(** [DbViewMacro::expand]. *)
Definition expand (self : DbViewMacro) : Result (list OutItem) :=
  let self := add_supertrait self in
  let view_impl := view_impl self in
  let view_trait := view_trait self in
  let input := input self in
  Ok [Decl (Item_Trait input); Decl (Item_Trait view_trait); Decl view_impl].

(** ** A sample trait parser

    A small parser for [[pub] trait Name [: A + B + ...] { }], standing for
    [syn]'s [ItemTrait] parser on this input fragment; it is used to run
    [db_view] on concrete token streams. *)

Fixpoint sample_bounds (ts : TokenStream) : list TypeParamBound * TokenStream :=
  match ts with
  | TT_Punct c :: TT_Ident b :: rest =>
      if Ascii.eqb c "+" then
        let '(bs, rest') := sample_bounds rest in (TPB_Trait [b] :: bs, rest')
      else ([], ts)
  | _ => ([], ts)
  end.

Definition sample_supertraits (ts : TokenStream) : list TypeParamBound * TokenStream :=
  match ts with
  | TT_Punct c :: TT_Ident a :: rest =>
      if Ascii.eqb c ":" then
        let '(bs, rest') := sample_bounds rest in (TPB_Trait [a] :: bs, rest')
      else ([], ts)
  | _ => ([], ts)
  end.

Definition is_keyword (i : Ident) (kw : string) : bool :=
  negb (raw i) && text_eqb (sym i) (txt kw).

Definition sample_parse (ts : TokenStream) : Result ItemTrait :=
  let '(vis, rest) :=
    match ts with
    | TT_Ident i :: r => if is_keyword i "pub" then (Vis_Public, r) else (Vis_Inherited, ts)
    | _ => (Vis_Inherited, ts)
    end in
  match rest with
  | TT_Ident kw :: TT_Ident name :: rest' =>
      if is_keyword kw "trait" then
        match sample_supertraits rest' with
        | (sups, [TT_Open Brace; TT_Close Brace]) =>
            Ok (mkItemTrait [] vis false false name Generics_default sups [])
        | _ => Err (mkError "expected `{`")
        end
      else Err (mkError "expected `trait`")
  | _ => Err (mkError "expected `trait`")
  end.

Definition kw (s : string) : TokenTree := TT_Ident (mkIdent (txt s) false).

(** [pub trait UserTrait {}] *)
Definition user_trait_tokens : TokenStream :=
  [kw "pub"; kw "trait"; kw "UserTrait"; TT_Open Brace; TT_Close Brace].

(** [pub trait UserTrait: OtherTrait {}] *)
Definition user_trait_other_tokens : TokenStream :=
  [kw "pub"; kw "trait"; kw "UserTrait"; TT_Punct ":"; kw "OtherTrait";
   TT_Open Brace; TT_Close Brace].

(** [pub trait Ünicode {}] ([Ü] is U+00DC) *)
Definition unicode_trait_tokens : TokenStream :=
  [kw "pub"; kw "trait"; TT_Ident (mkIdent (UOther 220 :: txt "nicode") false);
   TT_Open Brace; TT_Close Brace].

(** [pub trait r#Foo {}] *)
Definition raw_trait_tokens : TokenStream :=
  [kw "pub"; kw "trait"; TT_Ident (mkIdent (txt "Foo") true); TT_Open Brace; TT_Close Brace].

(** [trait UserTrait {}] *)
Definition private_user_trait_tokens : TokenStream :=
  [kw "trait"; kw "UserTrait"; TT_Open Brace; TT_Close Brace].

(** [pub struct S {}] *)
Definition struct_tokens : TokenStream :=
  [kw "pub"; kw "struct"; kw "S"; TT_Open Brace; TT_Close Brace].

(** The argument [x] wrapped in an invisible group. *)
Definition x_args : TokenStream := [TT_Open NoDelim; kw "x"; TT_Close NoDelim].

(** ** Reading the output *)

(** The names an item declares in the scope it is emitted into: a trait its
    name, a [use .. as] its alias; an [impl] and an anonymous [const _]
    declare none there (what a [const _] block holds stays inside it). *)
Definition item_declared_names (it : Item) : list Ident :=
  match it with
  | Item_Trait t => [it_ident t]
  | Item_Use _ rename => [rename]
  | Item_Impl _ | Item_AnonConst _ _ | Item_Other _ => []
  end.

Definition out_declared_names (out : list OutItem) : list Ident :=
  flat_map (fun o => match o with
                     | Decl it => item_declared_names it
                     | CompileError _ _ => []
                     end) out.

(** The method signatures a trait declares. *)
Definition trait_fn_sigs (t : ItemTrait) : list Signature :=
  flat_map (fun ti => match ti with
                      | TI_Fn _ sig _ => [sig]
                      | TI_Other _ => []
                      end) (it_items t).

(** The method signatures an impl defines. *)
Definition impl_fn_sigs (i : ItemImpl) : list Signature :=
  map (fun ii => match ii with II_Fn _ sig _ => sig end) (impl_items i).

(** ** Names in snake_case form *)

(** An ASCII lower-case letter or digit. *)
Definition snake_char (c : uchar) : bool :=
  match c with
  | UAscii a => is_lower a || is_digit a
  | UOther _ => false
  end.

(** Words joined by single underscores. *)
Fixpoint join_words (ws : list Text) : Text :=
  match ws with
  | [] => []
  | [w] => w
  | w :: ws' => w ++ txt "_" ++ join_words ws'
  end.

(** Non-empty words of [snake_char]s. *)
Definition snake_words (ws : list Text) : Prop :=
  Forall (fun w => w <> [] /\ Forall (fun c => snake_char c = true) w) ws.

(** Number of ASCII letters and digits. *)
Definition ascii_alnum (c : uchar) : bool :=
  match c with UAscii a => is_alphanumeric a | UOther _ => false end.

Definition count_ascii_alnum (l : Text) : nat := length (filter ascii_alnum l).

(** ** The code that reads the Unicode tables *)

Section WithTables.

Variable U : UnicodeTables.

(** [char::is_lowercase], [char::is_uppercase], [char::is_alphanumeric]
    ([is_alphabetic() || is_numeric()]) and [char::to_lowercase]. *)
Definition char_is_lowercase (c : uchar) : bool :=
  match c with UAscii a => is_lower a | UOther n => u_lowercase U n end.
Definition char_is_uppercase (c : uchar) : bool :=
  match c with UAscii a => is_upper a | UOther n => u_uppercase U n end.
Definition char_is_alphanumeric (c : uchar) : bool :=
  match c with
  | UAscii a => is_alphanumeric a
  | UOther n => u_alphabetic U n || u_numeric U n
  end.
Definition char_to_lowercase (c : uchar) : Text :=
  match c with UAscii a => [UAscii (to_lower a)] | UOther n => u_to_lowercase U n end.

(** The compiler's identifier check: [is_id_start] is ['_'] or [XID_Start],
    [is_id_continue] is [XID_Continue] (ASCII letters, digits and ['_']);
    an identifier is a start character followed by continue characters. *)
Definition is_id_start (c : uchar) : bool :=
  match c with
  | UAscii a => is_alphabetic a || Ascii.eqb a "_"
  | UOther n => u_xid_start U n
  end.
Definition is_id_continue (c : uchar) : bool :=
  match c with
  | UAscii a => is_alphanumeric a || Ascii.eqb a "_"
  | UOther n => u_xid_continue U n
  end.

Definition is_ident (s : Text) : bool :=
  match s with
  | [] => false
  | c :: rest => is_id_start c && forallb is_id_continue rest
  end.

(** [Ident::new(s, span)]; [None] is its panic on text that is not an
    identifier (a raw identifier's text ["r#..."] among others).  The
    compiler also brings the text to Unicode normal form C; the texts built
    here are taken to be in that form already. *)
Definition Ident_new (s : Text) : option Ident :=
  if is_ident s then Some (mkIdent s false) else None.

(** *** [heck::ToSnakeCase]

    [to_snake_case] is [transform(s, lowercase, |f| f.write_char('_'))]:
    the input is split at every non-alphanumeric character, each piece is
    cut into words at case boundaries, and the words are written lower-cased
    with a ['_'] before every word but the first one of the whole string. *)

Inductive WordMode := Boundary | Lowercase | Uppercase.

Definition WordMode_eqb (a b : WordMode) : bool :=
  match a, b with
  | Boundary, Boundary | Lowercase, Lowercase | Uppercase, Uppercase => true
  | _, _ => false
  end.

Definition capital_sigma : uchar := UOther 931.
Definition small_final_sigma : uchar := UOther 962.

(** heck's [lowercase]: every character through [char::to_lowercase],
    except that a [Σ] ending the word is written [ς]. *)
Fixpoint lowercase (w : Text) : Text :=
  match w with
  | [] => []
  | c :: rest =>
      match rest with
      | [] => if uchar_eqb c capital_sigma then [small_final_sigma]
              else char_to_lowercase c
      | _ :: _ => char_to_lowercase c
      end ++ lowercase rest
  end.

(** Writes one word, preceded by the boundary ['_'] unless it is the first. *)
Definition emit_word (first_word : bool) (w : Text) (out : Text) : Text :=
  out ++ (if first_word then [] else txt "_") ++ lowercase w.

(** The [while let Some((i, c)) = char_indices.next()] loop over one piece.
    [seg] is [word[init..i]], the characters of the current word before [c];
    the result is the output so far and the new [first_word]. *)
Fixpoint word_loop (first_word : bool) (mode : WordMode) (seg : Text)
    (cs : Text) (out : Text) : Text * bool :=
  match cs with
  | [] => (out, first_word)
  | c :: rest =>
      match rest with
      | next :: _ =>
          let next_mode :=
            if char_is_lowercase c then Lowercase
            else if char_is_uppercase c then Uppercase
            else mode in
          if WordMode_eqb next_mode Lowercase && char_is_uppercase next then
            (* word boundary after [c] *)
            word_loop false Boundary [] rest (emit_word first_word (seg ++ [c]) out)
          else if WordMode_eqb mode Uppercase && char_is_uppercase c
                  && char_is_lowercase next then
            (* word boundary before [c] *)
            word_loop false Boundary [c] rest (emit_word first_word seg out)
          else word_loop first_word next_mode (seg ++ [c]) rest out
      | [] =>
          (* trailing characters form the last word *)
          (emit_word first_word (seg ++ [c]) out, false)
      end
  end.

(** [s.split(|c: char| !c.is_alphanumeric())], empty pieces included. *)
Fixpoint split_non_alnum (cur : Text) (s : Text) : list Text :=
  match s with
  | [] => [rev cur]
  | c :: rest =>
      if char_is_alphanumeric c then split_non_alnum (c :: cur) rest
      else rev cur :: split_non_alnum [] rest
  end.

Fixpoint transform_words (first_word : bool) (ws : list Text) (out : Text) : Text :=
  match ws with
  | [] => out
  | w :: ws' =>
      let '(out', first') := word_loop first_word Boundary [] w out in
      transform_words first' ws' out'
  end.

Definition transform (s : Text) : Text :=
  transform_words true (split_non_alnum [] s) [].

Definition to_snake_case (s : Text) : Text := transform s.

(** *** The macro *)

(** [format!("__SalsaAddView{}__", input)] then [Ident::new]. *)
Definition db_view_trait_name (input : Text) : option Ident :=
  Ident_new (txt "__SalsaAddView" ++ input ++ txt "__").

(** [format!("__salsa_add_view_{}__", input.to_string().to_snake_case())]
    then [Ident::new]. *)
Definition db_view_method_name (input : Text) : option Ident :=
  Ident_new (txt "__salsa_add_view_" ++ to_snake_case input ++ txt "__").

(** [DbViewMacro::new]; [None] is a panic of [Ident::new]. *)
Definition DbViewMacro_new (hygiene : Hygiene) (input : ItemTrait)
  : option DbViewMacro :=
  match db_view_trait_name (ident_display (it_ident input)) with
  | None => None
  | Some DbViewTrait =>
      match db_view_method_name (ident_display (it_ident input)) with
      | None => None
      | Some db_view_method =>
          Some (mkDbViewMacro hygiene input DbViewTrait db_view_method)
      end
  end.

(** [db_view(args, input)]; [parse_ItemTrait] is [syn]'s parser for
    [syn::ItemTrait] (an early return of [parse_macro_input!] is the
    compile error of its [Err]). *)
Definition db_view (parse_ItemTrait : TokenStream -> Result ItemTrait)
    (args input : TokenStream) : Output :=
  match parse_nothing args with
  | Err e => Emitted [CompileError ArgumentError e]
  | Ok _ =>
      let hygiene := Hygiene_from input in
      match parse_ItemTrait input with
      | Err e => Emitted [CompileError SyntaxError e]
      | Ok item =>
          match DbViewMacro_new hygiene item with
          | None => Panicked
          | Some db_view_macro =>
              match expand db_view_macro with
              | Ok tokens => Emitted tokens
              | Err err => Emitted [CompileError ExpandError err]
              end
          end
      end
  end.

End WithTables.

(** * Properties *)

(** ** Character facts *)

Lemma to_lower_alnum (c : ascii) : is_alphanumeric (to_lower c) = is_alphanumeric c.
Proof. destruct c as [[] [] [] [] [] [] [] []]; reflexivity. Qed.

Lemma snake_ascii_props (a : ascii) :
  is_lower a || is_digit a = true ->
  is_alphanumeric a = true /\ is_upper a = false /\ to_lower a = a.
Proof. destruct a as [[] [] [] [] [] [] [] []]; vm_compute; intuition congruence. Qed.

(** ** Counting ASCII letters and digits *)

Lemma count_app (l1 l2 : Text) :
  count_ascii_alnum (l1 ++ l2) = count_ascii_alnum l1 + count_ascii_alnum l2.
Proof. unfold count_ascii_alnum. now rewrite filter_app, length_app. Qed.

Lemma count_cons (c : uchar) (l : Text) :
  count_ascii_alnum (c :: l) = count_ascii_alnum [c] + count_ascii_alnum l.
Proof. unfold count_ascii_alnum; simpl; destruct (ascii_alnum c); reflexivity. Qed.

Lemma count_rev (l : Text) : count_ascii_alnum (rev l) = count_ascii_alnum l.
Proof.
  induction l as [|c l IH]; [reflexivity|].
  simpl. rewrite count_app, IH, (count_cons c l). lia.
Qed.

Lemma count_nil : count_ascii_alnum [] = 0.
Proof. reflexivity. Qed.

Lemma count_underscore : count_ascii_alnum (txt "_") = 0.
Proof. reflexivity. Qed.

Section Properties.

Variable U : UnicodeTables.

(** ** Derived names *)

(** The output of [db_view] when the arguments are empty and the trait
    parses: a panic when a derived name is not identifier text, otherwise
    the fragment built by [expand]. *)
Lemma db_view_parsed (parse : TokenStream -> Result ItemTrait) (toks : TokenStream)
    (t : ItemTrait) :
  parse toks = Ok t ->
  db_view U parse [] toks =
  match DbViewMacro_new U (Hygiene_from toks) t with
  | None => Panicked
  | Some m =>
      Emitted [Decl (Item_Trait (input (add_supertrait m)));
               Decl (Item_Trait (view_trait (add_supertrait m)));
               Decl (view_impl (add_supertrait m))]
  end.
Proof.
  intros Hp. unfold db_view. simpl. rewrite Hp.
  destruct (DbViewMacro_new U _ t); reflexivity.
Qed.

Lemma DbViewMacro_new_some (h : Hygiene) (t : ItemTrait) (m : DbViewMacro) :
  DbViewMacro_new U h t = Some m ->
  db_view_trait_name U (ident_display (it_ident t)) = Some (DbViewTrait m) /\
  db_view_method_name U (ident_display (it_ident t)) = Some (db_view_method m) /\
  hygiene m = h /\ input m = t.
Proof.
  unfold DbViewMacro_new.
  destruct (db_view_trait_name U _) as [a|]; [|discriminate].
  destruct (db_view_method_name U _) as [b|]; [|discriminate].
  intros H; injection H as <-; auto.
Qed.

Lemma is_ident_trait_text (N : Text) :
  is_ident U (txt "__SalsaAddView" ++ N ++ txt "__") = forallb (is_id_continue U) N.
Proof. simpl. rewrite forallb_app. simpl. now rewrite andb_true_r. Qed.

(** The displayed text of a raw identifier starts with [r#]; the ['#']
    makes [Ident::new] refuse [__SalsaAddView{}__]. *)
Lemma raw_trait_name_none (i : Ident) :
  raw i = true -> db_view_trait_name U (ident_display i) = None.
Proof.
  intros Hr. unfold db_view_trait_name, Ident_new, ident_display. rewrite Hr.
  rewrite is_ident_trait_text. reflexivity.
Qed.

Lemma db_view_trait_name_sym (N : Text) (t : Ident) :
  db_view_trait_name U N = Some t -> sym t = txt "__SalsaAddView" ++ N ++ txt "__".
Proof.
  unfold db_view_trait_name, Ident_new. destruct (is_ident U _); [|discriminate].
  intros H. now injection H as <-.
Qed.

Lemma db_view_method_name_sym (N : Text) (m : Ident) :
  db_view_method_name U N = Some m ->
  sym m = txt "__salsa_add_view_" ++ to_snake_case U N ++ txt "__".
Proof.
  unfold db_view_method_name, Ident_new. destruct (is_ident U _); [|discriminate].
  intros H. now injection H as <-.
Qed.

Lemma trait_method_names_differ (N S : Text) :
  txt "__SalsaAddView" ++ N ++ txt "__" <> txt "__salsa_add_view_" ++ S ++ txt "__".
Proof. simpl. intros H. discriminate H. Qed.

Lemma trait_name_inj (N M : Text) :
  txt "__SalsaAddView" ++ N ++ txt "__" = txt "__SalsaAddView" ++ M ++ txt "__" -> N = M.
Proof. intros H. apply app_inv_head in H. now apply app_inv_tail in H. Qed.

(** ** [to_snake_case] writes every ASCII letter and digit of its input

    An ASCII letter or digit is alphanumeric, so it stays in its piece and
    is written exactly once, lower-cased; the other characters may be
    dropped or written as any number of characters. *)

Lemma ascii_alnum_alnum (c : uchar) :
  ascii_alnum c = true -> char_is_alphanumeric U c = true.
Proof. destruct c; simpl; [auto | discriminate]. Qed.

Lemma count_to_lowercase (c : uchar) :
  count_ascii_alnum [c] <= count_ascii_alnum (char_to_lowercase U c).
Proof.
  unfold count_ascii_alnum. destruct c as [a|n]; [|simpl; lia].
  cbn [char_to_lowercase filter ascii_alnum]. rewrite to_lower_alnum.
  destruct (is_alphanumeric a); simpl; lia.
Qed.

Lemma count_lowercase (w : Text) :
  count_ascii_alnum w <= count_ascii_alnum (lowercase U w).
Proof.
  induction w as [|c w IH]; [reflexivity|].
  rewrite count_cons. simpl. rewrite count_app.
  pose proof (count_to_lowercase c) as Hc.
  destruct w as [|c' w'].
  - destruct (uchar_eqb c capital_sigma) eqn:E; [|lia].
    destruct c; [discriminate E | simpl in *; lia].
  - lia.
Qed.

Lemma count_emit_word (f : bool) (w out : Text) :
  count_ascii_alnum out + count_ascii_alnum w
  <= count_ascii_alnum (emit_word U f w out).
Proof.
  unfold emit_word. rewrite !count_app. pose proof (count_lowercase w).
  destruct f; simpl; lia.
Qed.

Lemma word_loop_count (cs : Text) : forall f m seg out,
  (cs = [] -> seg = []) ->
  count_ascii_alnum out + count_ascii_alnum seg + count_ascii_alnum cs
  <= count_ascii_alnum (fst (word_loop U f m seg cs out)).
Proof.
  induction cs as [|c rest IH]; intros f m seg out Hseg.
  - cbn [word_loop fst]. rewrite Hseg by reflexivity. rewrite count_nil. lia.
  - rewrite count_cons. cbn [word_loop].
    destruct rest as [|next rest'].
    + cbn [fst]. pose proof (count_emit_word f (seg ++ [c]) out) as H.
      rewrite count_app in H. rewrite count_nil. lia.
    + destruct (_ && char_is_uppercase U next) eqn:E1;
        [|destruct (_ && char_is_uppercase U c && char_is_lowercase U next) eqn:E2].
      * pose proof (IH false Boundary [] (emit_word U f (seg ++ [c]) out)
                      ltac:(discriminate)) as H.
        pose proof (count_emit_word f (seg ++ [c]) out) as H'.
        rewrite count_app in H'. rewrite count_nil in H. lia.
      * pose proof (IH false Boundary [c] (emit_word U f seg out)
                      ltac:(discriminate)) as H.
        pose proof (count_emit_word f seg out) as H'. lia.
      * pose proof (IH f (if char_is_lowercase U c then Lowercase
                          else if char_is_uppercase U c then Uppercase else m)
                      (seg ++ [c]) out ltac:(discriminate)) as H.
        rewrite count_app in H. lia.
Qed.

Lemma transform_words_count (ws : list Text) : forall f out,
  count_ascii_alnum out + list_sum (map count_ascii_alnum ws)
  <= count_ascii_alnum (transform_words U f ws out).
Proof.
  induction ws as [|w ws IH]; intros f out; cbn [transform_words map list_sum fold_right]; [lia|].
  pose proof (word_loop_count w f Boundary [] out (fun _ => eq_refl)) as Hc.
  destruct (word_loop U f Boundary [] w out) as [out' f'] eqn:E.
  specialize (IH f' out'). cbn [fst] in Hc. rewrite count_nil in Hc.
  unfold list_sum in *. lia.
Qed.

Lemma split_non_alnum_count (s : Text) : forall cur,
  list_sum (map count_ascii_alnum (split_non_alnum U cur s))
  = count_ascii_alnum cur + count_ascii_alnum s.
Proof.
  induction s as [|c s IH]; intros cur; simpl.
  - rewrite count_rev. simpl. rewrite count_nil. lia.
  - rewrite (count_cons c s).
    destruct (char_is_alphanumeric U c) eqn:E; simpl.
    + rewrite IH, count_cons. lia.
    + rewrite IH, count_rev.
      destruct (ascii_alnum c) eqn:Ea.
      * apply ascii_alnum_alnum in Ea. congruence.
      * assert (H0 : count_ascii_alnum [c] = 0)
          by (unfold count_ascii_alnum; simpl; now rewrite Ea).
        rewrite ?count_nil. lia.
Qed.

Lemma to_snake_case_count (s : Text) :
  count_ascii_alnum s <= count_ascii_alnum (to_snake_case U s).
Proof.
  unfold to_snake_case, transform.
  pose proof (transform_words_count (split_non_alnum U [] s) true []).
  rewrite split_non_alnum_count in H. simpl in H. lia.
Qed.

Lemma trait_text_count (N : Text) :
  count_ascii_alnum (txt "__SalsaAddView" ++ N ++ txt "__") = 12 + count_ascii_alnum N.
Proof.
  rewrite !count_app.
  change (count_ascii_alnum (txt "__SalsaAddView")) with 12.
  change (count_ascii_alnum (txt "__")) with 0. lia.
Qed.

Lemma method_text_count (N : Text) :
  12 + count_ascii_alnum N
  <= count_ascii_alnum (txt "__salsa_add_view_" ++ to_snake_case U N ++ txt "__").
Proof.
  rewrite !count_app. pose proof (to_snake_case_count N).
  change (count_ascii_alnum (txt "__salsa_add_view_")) with 12.
  change (count_ascii_alnum (txt "__")) with 0. lia.
Qed.

(** ** Names already in snake_case form *)

Lemma snake_char_props (c : uchar) :
  snake_char c = true ->
  char_is_alphanumeric U c = true /\ char_is_uppercase U c = false /\
  char_to_lowercase U c = [c] /\ uchar_eqb c capital_sigma = false.
Proof.
  destruct c as [a|n]; simpl; [|discriminate].
  intros H. destruct (snake_ascii_props a H) as (H1 & H2 & H3).
  now rewrite H1, H2, H3.
Qed.

Lemma split_non_alnum_word (w rest cur : Text) :
  Forall (fun c => char_is_alphanumeric U c = true) w ->
  split_non_alnum U cur (w ++ rest) = split_non_alnum U (rev w ++ cur) rest.
Proof.
  revert cur. induction w as [|c w IH]; intros cur Hw; [reflexivity|].
  inversion Hw; subst. simpl. rewrite H1, IH by assumption.
  now rewrite <- app_assoc.
Qed.

Lemma split_join_words (W : list Text) :
  snake_words W -> W <> [] -> split_non_alnum U [] (join_words W) = W.
Proof.
  induction W as [|w W IH]; intros HW Hne; [contradiction|].
  inversion HW as [|? ? [_ Hw] HW']; subst.
  assert (Hwa : Forall (fun c => char_is_alphanumeric U c = true) w)
    by (eapply Forall_impl; [|exact Hw]; intros c Hc; now apply snake_char_props).
  destruct W as [|w2 W'].
  - simpl. rewrite <- (app_nil_r w) at 1. rewrite split_non_alnum_word by exact Hwa.
    simpl. now rewrite app_nil_r, rev_involutive.
  - change (join_words (w :: w2 :: W')) with (w ++ txt "_" ++ join_words (w2 :: W')).
    rewrite split_non_alnum_word by exact Hwa.
    remember (join_words (w2 :: W')) as J eqn:EJ. simpl.
    rewrite app_nil_r, rev_involutive, IH; [reflexivity | exact HW' | discriminate].
Qed.

Lemma word_loop_no_upper (cs : Text) : forall f m seg out,
  cs <> [] -> Forall (fun c => char_is_uppercase U c = false) cs ->
  word_loop U f m seg cs out = (emit_word U f (seg ++ cs) out, false).
Proof.
  induction cs as [|c rest IH]; intros f m seg out Hne Hcs; [contradiction|].
  inversion Hcs as [|? ? Hc Hrest]; subst. simpl.
  destruct rest as [|next rest']; [reflexivity|].
  inversion Hrest as [|? ? Hn _]; subst.
  rewrite Hn, Hc, andb_false_r, andb_false_r, andb_false_l.
  rewrite IH by (discriminate || assumption). now rewrite <- app_assoc.
Qed.

Lemma lowercase_snake (w : Text) :
  Forall (fun c => snake_char c = true) w -> lowercase U w = w.
Proof.
  induction w as [|c w IH]; intros Hw; [reflexivity|].
  inversion Hw; subst. simpl. rewrite IH by assumption.
  destruct (snake_char_props c H1) as (_ & _ & Hl & Hs).
  destruct w; rewrite ?Hs, Hl; reflexivity.
Qed.

Lemma transform_words_join (W : list Text) : forall f out,
  snake_words W -> W <> [] ->
  transform_words U f W out = out ++ (if f then [] else txt "_") ++ join_words W.
Proof.
  induction W as [|w W IH]; intros f out HW Hne; [contradiction|].
  inversion HW as [|? ? [Hwne Hw] HW']; subst. simpl.
  assert (Hwu : Forall (fun c => char_is_uppercase U c = false) w)
    by (eapply Forall_impl; [|exact Hw]; intros c Hc; now apply snake_char_props).
  rewrite word_loop_no_upper by assumption. simpl.
  unfold emit_word. rewrite lowercase_snake by assumption.
  destruct W as [|w2 W']; [reflexivity|].
  rewrite IH; [|assumption|discriminate].
  change (join_words (w :: w2 :: W')) with (w ++ txt "_" ++ join_words (w2 :: W')).
  now rewrite <- !app_assoc.
Qed.

Lemma to_snake_case_join (W : list Text) :
  snake_words W -> to_snake_case U (join_words W) = join_words W.
Proof.
  intros HW. destruct W as [|w W']; [reflexivity|].
  unfold to_snake_case, transform.
  rewrite split_join_words by (assumption || discriminate).
  rewrite transform_words_join by (assumption || discriminate). reflexivity.
Qed.

Lemma snake_words_ident (W : list Text) :
  snake_words W -> forallb (is_id_continue U) (join_words W) = true.
Proof.
  intros HW. apply forallb_forall. intros c Hc.
  assert (H : snake_char c = true \/ c = UAscii "_").
  { induction HW as [|w W [_ Hw] HW IH]; [contradiction|].
    destruct W as [|w2 W'].
    - left. exact (proj1 (Forall_forall _ _) Hw c Hc).
    - change (join_words (w :: w2 :: W')) with (w ++ txt "_" ++ join_words (w2 :: W')) in Hc.
      apply in_app_or in Hc as [Hc|[Hc|Hc]].
      + left. exact (proj1 (Forall_forall _ _) Hw c Hc).
      + right. now subst.
      + now apply IH. }
  destruct H as [H| ->]; [|reflexivity].
  destruct c as [a|n]; [|discriminate].
  simpl. now rewrite (proj1 (snake_ascii_props a H)).
Qed.

(** ** Claims *)

(** C1: in the output, the requirements (supertraits) of the augmented
    trait are those of the input trait, in their order, followed by one new
    last entry, the derived hidden trait name.  The output is emitted for
    every parsed trait whose derived names are identifiers, Unicode names
    included. *)
Theorem augmented_requirements_append (parse : TokenStream -> Result ItemTrait)
    (toks : TokenStream) (t : ItemTrait) (out : list OutItem) :
  parse toks = Ok t ->
  db_view U parse [] toks = Emitted out ->
  exists t' rest hidden,
    out = Decl (Item_Trait t') :: rest /\
    db_view_trait_name U (ident_display (it_ident t)) = Some hidden /\
    it_supertraits t' = it_supertraits t ++ [TPB_Trait [hidden]].
Proof.
  intros Hp Ho. rewrite (db_view_parsed parse toks t Hp) in Ho.
  destruct (DbViewMacro_new U _ t) as [m|] eqn:Hm; [|discriminate].
  injection Ho as <-.
  destruct (DbViewMacro_new_some _ _ _ Hm) as (Ht & _ & _ & Hi).
  do 3 eexists. split; [reflexivity|]. split; [exact Ht|].
  simpl. now rewrite Hi.
Qed.

(** C2 (the code panics): for a trait named by a raw identifier such as
    [r#Foo], [Ident::new] panics on the text [__SalsaAddViewr#Foo__], so the
    expansion yields neither the three declarations nor a diagnostic. *)
Theorem raw_trait_expansion_panics (parse : TokenStream -> Result ItemTrait)
    (toks : TokenStream) (t : ItemTrait) :
  parse toks = Ok t -> raw (it_ident t) = true ->
  db_view U parse [] toks = Panicked.
Proof.
  intros Hp Hr. rewrite (db_view_parsed parse toks t Hp).
  unfold DbViewMacro_new. now rewrite raw_trait_name_none.
Qed.

(** C3: in the output, the hidden trait (the second declaration) has
    exactly one method, named by [db_view_method_name] of the trait name,
    and the visibility of the input trait. *)
Theorem hidden_trait_shape (parse : TokenStream -> Result ItemTrait)
    (toks : TokenStream) (t : ItemTrait) (out : list OutItem) :
  parse toks = Ok t ->
  db_view U parse [] toks = Emitted out ->
  exists augmented hidden blanket method attrs,
    out = [Decl (Item_Trait augmented); Decl (Item_Trait hidden); Decl blanket] /\
    db_view_method_name U (ident_display (it_ident t)) = Some method /\
    it_items hidden = [TI_Fn attrs (mkSignature method [FA_RefSelf] None) None] /\
    it_vis hidden = it_vis t.
Proof.
  intros Hp Ho. rewrite (db_view_parsed parse toks t Hp) in Ho.
  destruct (DbViewMacro_new U _ t) as [m|] eqn:Hm; [|discriminate].
  injection Ho as <-.
  destruct (DbViewMacro_new_some _ _ _ Hm) as (_ & Hmeth & _ & Hi).
  do 5 eexists. split; [reflexivity|]. split; [exact Hmeth|].
  split; [reflexivity|]. simpl. now rewrite Hi.
Qed.

(** C4 (amended): for [UserTrait] the hidden trait is
    [__SalsaAddViewUserTrait__] and the hidden method
    [__salsa_add_view_user_trait__], [to_snake_case] mapping [UserTrait] to
    [user_trait]; and so does the expansion of [pub trait UserTrait {}]. *)
Theorem user_trait_derived_names :
  db_view_trait_name U (txt "UserTrait")
    = Some (mkIdent (txt "__SalsaAddViewUserTrait__") false) /\
  db_view_method_name U (txt "UserTrait")
    = Some (mkIdent (txt "__salsa_add_view_user_trait__") false) /\
  to_snake_case U (txt "UserTrait") = txt "user_trait" /\
  exists augmented blanket,
    db_view U sample_parse [] user_trait_tokens =
    Emitted [Decl (Item_Trait augmented);
             Decl (Item_Trait
               (mkItemTrait (view_docs ++ [Attr_DocHidden]) Vis_Public false false
                  (mkIdent (txt "__SalsaAddViewUserTrait__") false) Generics_default []
                  [TI_Fn [] (mkSignature (mkIdent (txt "__salsa_add_view_user_trait__") false)
                               [FA_RefSelf] None) None]));
             Decl blanket] /\
    it_supertraits augmented
      = [TPB_Trait [mkIdent (txt "__SalsaAddViewUserTrait__") false]].
Proof.
  split; [reflexivity|]. split; [reflexivity|]. split; [reflexivity|].
  do 2 eexists. split; reflexivity.
Qed.

(** C5 (the code panics): a trait named by a raw identifier has no hidden
    trait name, [Ident::new] panicking on [__SalsaAddViewr#...__]; whenever
    both derived names exist, each differs from the name and they differ
    from each other (the derived texts have more ASCII letters and digits
    than the name, and differ in their third character). *)
Theorem derived_names_differ :
  (forall i, raw i = true -> db_view_trait_name U (ident_display i) = None) /\
  (forall N hidden_trait hidden_method,
     db_view_trait_name U N = Some hidden_trait ->
     db_view_method_name U N = Some hidden_method ->
     sym hidden_trait <> N /\ sym hidden_method <> N /\
     sym hidden_trait <> sym hidden_method).
Proof.
  split; [exact raw_trait_name_none|].
  intros N ht hm Ht Hm.
  apply db_view_trait_name_sym in Ht. apply db_view_method_name_sym in Hm.
  rewrite Ht, Hm. split; [|split].
  - intros E. pose proof (trait_text_count N) as C. rewrite E in C. lia.
  - intros E. pose proof (method_text_count N) as C. rewrite E in C. lia.
  - apply trait_method_names_differ.
Qed.

(** C6 (amended): for distinct [N] and [M], the hidden trait names differ,
    and the hidden trait name of either differs from the hidden method name
    of the other; only the hidden method names may coincide. *)
Theorem derived_names_distinct (N M : Text) (tN mN tM mM : Ident) :
  N <> M ->
  db_view_trait_name U N = Some tN -> db_view_method_name U N = Some mN ->
  db_view_trait_name U M = Some tM -> db_view_method_name U M = Some mM ->
  sym tN <> sym tM /\ sym tN <> sym mM /\ sym mN <> sym tM.
Proof.
  intros Hne HtN HmN HtM HmM.
  apply db_view_trait_name_sym in HtN, HtM.
  apply db_view_method_name_sym in HmN, HmM.
  rewrite HtN, HtM, HmN, HmM. split; [|split].
  - intros E. apply Hne. now apply trait_name_inj.
  - apply trait_method_names_differ.
  - intros E. symmetry in E. revert E. apply trait_method_names_differ.
Qed.

(** C7 (the code panics): a diagnostic from the argument check exactly when
    the arguments hold a token (the delimiters of invisible, None-delimited
    groups are no text); otherwise a diagnostic from the trait parser
    exactly when the input does not parse; a parsed trait is expanded into
    three declarations when both derived names are identifiers, and the
    macro panics otherwise, as it does on [pub trait r#Foo {}]. *)
Theorem db_view_outcomes :
  (forall (parse : TokenStream -> Result ItemTrait) (args toks : TokenStream),
     ((exists e, db_view U parse args toks = Emitted [CompileError ArgumentError e])
        <-> span_of_unexpected_ignoring_nones args <> None) /\
     (span_of_unexpected_ignoring_nones args = None ->
        ((exists e, db_view U parse args toks = Emitted [CompileError SyntaxError e])
           <-> exists e, parse toks = Err e)) /\
     (forall t, span_of_unexpected_ignoring_nones args = None -> parse toks = Ok t ->
        (db_view U parse args toks = Panicked
           <-> db_view_trait_name U (ident_display (it_ident t)) = None \/
               db_view_method_name U (ident_display (it_ident t)) = None) /\
        (db_view U parse args toks <> Panicked ->
           exists a b c, db_view U parse args toks = Emitted [Decl a; Decl b; Decl c]))) /\
  db_view U sample_parse [] raw_trait_tokens = Panicked.
Proof.
  split; [|reflexivity].
  intros parse args toks. unfold db_view, parse_nothing.
  destruct (span_of_unexpected_ignoring_nones args) as [tok|] eqn:Ea.
  - split; [|split; intros; discriminate].
    split; [discriminate|]. intros _. eexists; reflexivity.
  - split; [|split].
    + split; [|congruence]. intros [e He].
      destruct (parse toks) as [t|e']; [|discriminate He].
      destruct (DbViewMacro_new U _ t) as [m|]; discriminate He.
    + intros _. destruct (parse toks) as [t|e].
      * split; [|intros [e He]; discriminate He]. intros [e He].
        destruct (DbViewMacro_new U _ t) as [m|]; discriminate He.
      * split; intros _; eexists; reflexivity.
    + intros t _ Hp. rewrite Hp. unfold DbViewMacro_new.
      destruct (db_view_trait_name U _) as [a|];
        [destruct (db_view_method_name U _) as [b|]|].
      * split; [split; [discriminate | intros [H|H]; discriminate H]|].
        intros _. do 3 eexists. reflexivity.
      * split; [split; [auto | reflexivity]|]. intros H; now exfalso.
      * split; [split; [auto | reflexivity]|]. intros H; now exfalso.
Qed.

(** C8 (amended): the augmented trait is the input trait with only its
    supertraits changed (attributes, visibility, name, generics and items
    kept); the generated declarations depend on the input only through the
    trait's name and visibility and the hygiene context, which is built from
    the identifiers of all the input tokens. *)
Theorem expand_frame (parse : TokenStream -> Result ItemTrait)
    (toks : TokenStream) (t : ItemTrait) (out : list OutItem) :
  parse toks = Ok t ->
  db_view U parse [] toks = Emitted out ->
  exists hidden generated,
    db_view_trait_name U (ident_display (it_ident t)) = Some hidden /\
    out = Decl (Item_Trait
                  (mkItemTrait (it_attrs t) (it_vis t) (it_unsafety t) (it_auto t)
                     (it_ident t) (it_generics t)
                     (it_supertraits t ++ [TPB_Trait [hidden]]) (it_items t)))
          :: generated /\
    forall toks2 t2 out2,
      parse toks2 = Ok t2 -> db_view U parse [] toks2 = Emitted out2 ->
      it_ident t2 = it_ident t -> it_vis t2 = it_vis t ->
      Hygiene_from toks2 = Hygiene_from toks ->
      exists a2, out2 = a2 :: generated.
Proof.
  intros Hp Ho. rewrite (db_view_parsed parse toks t Hp) in Ho.
  destruct (DbViewMacro_new U _ t) as [m|] eqn:Hm; [|discriminate].
  injection Ho as <-.
  destruct (DbViewMacro_new_some _ _ _ Hm) as (Ht & Hmeth & Hh & Hi).
  do 2 eexists. split; [exact Ht|]. split.
  - simpl. rewrite Hi. reflexivity.
  - intros toks2 t2 out2 Hp2 Ho2 Hid Hvis Hhyg.
    rewrite (db_view_parsed parse toks2 t2 Hp2) in Ho2.
    destruct (DbViewMacro_new U _ t2) as [m2|] eqn:Hm2; [|discriminate].
    injection Ho2 as <-.
    destruct (DbViewMacro_new_some _ _ _ Hm2) as (Ht2 & Hmeth2 & Hh2 & Hi2).
    rewrite Hid in Ht2, Hmeth2.
    assert (E1 : DbViewTrait m2 = DbViewTrait m) by congruence.
    assert (E2 : db_view_method m2 = db_view_method m) by congruence.
    eexists. unfold view_trait, view_impl; simpl.
    rewrite Hi, Hi2, Hid, Hvis, Hh, Hh2, Hhyg, E1, E2. reflexivity.
Qed.

(** C9: the expansion is a function of the argument and input tokens, and
    the derived names a function of the trait name. *)
Theorem db_view_deterministic (parse : TokenStream -> Result ItemTrait)
    (args1 args2 toks1 toks2 : TokenStream) (N1 N2 : Text) :
  args1 = args2 -> toks1 = toks2 -> N1 = N2 ->
  db_view U parse args1 toks1 = db_view U parse args2 toks2 /\
  db_view_trait_name U N1 = db_view_trait_name U N2 /\
  db_view_method_name U N1 = db_view_method_name U N2.
Proof. intros -> -> ->. auto. Qed.

(** C10: when the arguments hold a token (not only the delimiters of
    invisible groups) the result is the argument diagnostic, whatever the
    input and whatever the trait parser: the input is never parsed. *)
Theorem argument_error_first (args : TokenStream) :
  span_of_unexpected_ignoring_nones args <> None ->
  forall (parse1 parse2 : TokenStream -> Result ItemTrait) (toks1 toks2 : TokenStream),
    db_view U parse1 args toks1 = db_view U parse2 args toks2 /\
    exists e, db_view U parse1 args toks1 = Emitted [CompileError ArgumentError e].
Proof.
  intros Hargs parse1 parse2 toks1 toks2. unfold db_view, parse_nothing.
  destruct (span_of_unexpected_ignoring_nones args); [|congruence].
  split; [reflexivity|]. eexists; reflexivity.
Qed.

(** ** Further properties of db_view.rs *)

(** A trait whose name is in snake_case form (non-empty words of ASCII
    lower-case letters and digits joined by single underscores) gets the
    hidden method [__salsa_add_view_<name>__], the name written verbatim. *)
Theorem method_name_snake_input (W : list Text) :
  snake_words W ->
  db_view_method_name U (join_words W)
  = Some (mkIdent (txt "__salsa_add_view_" ++ join_words W ++ txt "__") false).
Proof.
  intros HW. unfold db_view_method_name, Ident_new.
  rewrite to_snake_case_join by exact HW.
  simpl. rewrite forallb_app, snake_words_ident by exact HW. reflexivity.
Qed.

(** [db_view_trait_name] panics exactly when the displayed name has a
    character that cannot continue an identifier (not [XID_Continue]);
    otherwise it is [__SalsaAddView<name>__]. *)
Theorem trait_name_panics_iff (N : Text) :
  (db_view_trait_name U N = None <-> forallb (is_id_continue U) N = false) /\
  (forallb (is_id_continue U) N = true ->
     db_view_trait_name U N = Some (mkIdent (txt "__SalsaAddView" ++ N ++ txt "__") false)).
Proof.
  unfold db_view_trait_name, Ident_new. rewrite is_ident_trait_text.
  destruct (forallb _ _); split; try split; congruence.
Qed.

(** In every expansion, the blanket impl (inside the anonymous [const _]
    block, after [use salsa::Database as D]) implements exactly the hidden
    trait, which is also the last supertrait of the augmented trait; it is
    generic over one type parameter bounded by [D] and implemented for that
    parameter; it defines exactly the method signatures the hidden trait
    declares; and the hidden trait itself has no supertraits and no generics
    and is [#[doc(hidden)]]. *)
Theorem blanket_impl_matches_hidden_trait (parse : TokenStream -> Result ItemTrait)
    (toks : TokenStream) (t : ItemTrait) (out : list OutItem) :
  parse toks = Ok t ->
  db_view U parse [] toks = Emitted out ->
  exists augmented hidden ty D DB i,
    out = [Decl (Item_Trait augmented); Decl (Item_Trait hidden);
           Decl (Item_AnonConst ty [Item_Use [salsa_ident; Database_ident] D; Item_Impl i])] /\
    impl_trait i = Some [it_ident hidden] /\
    last (it_supertraits augmented) (TPB_Lifetime "") = TPB_Trait [it_ident hidden] /\
    impl_generics i = mkGenerics [GP_Type DB [TPB_Trait [D]]] None /\
    impl_self_ty i = Ty_Path [DB] /\
    impl_fn_sigs i = trait_fn_sigs hidden /\
    it_supertraits hidden = [] /\ it_generics hidden = Generics_default /\
    In Attr_DocHidden (it_attrs hidden).
Proof.
  intros Hp Ho. rewrite (db_view_parsed parse toks t Hp) in Ho.
  destruct (DbViewMacro_new U _ t) as [m|] eqn:Hm; [|discriminate].
  injection Ho as <-.
  do 6 eexists. split; [reflexivity|].
  split; [reflexivity|]. split; [simpl; apply last_last|].
  split; [reflexivity|]. split; [reflexivity|]. split; [reflexivity|].
  split; [reflexivity|]. split; [reflexivity|].
  simpl. right; right; right; right; left; reflexivity.
Qed.

(** The method of the blanket impl registers the input trait: its body is
    [let v = self.views_of_self(); v.add::<dyn T>(|t| t, |t| t);] where [T]
    is the input trait's name and [v] is one local. *)
Theorem blanket_impl_registers_input_trait (parse : TokenStream -> Result ItemTrait)
    (toks : TokenStream) (t : ItemTrait) (out : list OutItem) :
  parse toks = Ok t ->
  db_view U parse [] toks = Emitted out ->
  exists a b ty uses i attrs sig v,
    out = [Decl a; Decl b; Decl (Item_AnonConst ty (uses ++ [Item_Impl i]))] /\
    impl_items i =
      [II_Fn attrs sig
         [S_Let v (E_MethodCall E_SelfValue "views_of_self" [] []);
          S_Expr (E_MethodCall (E_Path [v]) "add" [Ty_TraitObject [it_ident t]]
                    [E_Closure t_ident (E_Path [t_ident]);
                     E_Closure t_ident (E_Path [t_ident])])]].
Proof.
  intros Hp Ho. rewrite (db_view_parsed parse toks t Hp) in Ho.
  destruct (DbViewMacro_new U _ t) as [m|] eqn:Hm; [|discriminate].
  injection Ho as <-.
  destruct (DbViewMacro_new_some _ _ _ Hm) as (_ & _ & _ & Hi).
  do 2 eexists. exists (Ty_Verbatim [TT_Open Parenthesis; TT_Close Parenthesis]).
  exists [Item_Use [salsa_ident; Database_ident] (Hygiene_ident (hygiene m) "Database")].
  do 4 eexists. split.
  - reflexivity.
  - simpl. rewrite Hi. reflexivity.
Qed.

(** The expansion declares exactly two names in the surrounding scope: the
    input trait's and the hidden trait's; the [Database] alias stays inside
    the anonymous [const _] block. *)
Theorem expansion_declared_names (parse : TokenStream -> Result ItemTrait)
    (toks : TokenStream) (t : ItemTrait) (out : list OutItem) :
  parse toks = Ok t ->
  db_view U parse [] toks = Emitted out ->
  exists hidden,
    db_view_trait_name U (ident_display (it_ident t)) = Some hidden /\
    out_declared_names out = [it_ident t; hidden].
Proof.
  intros Hp Ho. rewrite (db_view_parsed parse toks t Hp) in Ho.
  destruct (DbViewMacro_new U _ t) as [m|] eqn:Hm; [|discriminate].
  injection Ho as <-.
  destruct (DbViewMacro_new_some _ _ _ Hm) as (Ht & _ & _ & Hi).
  eexists. split; [exact Ht|]. simpl. now rewrite Hi.
Qed.

(** [DbViewMacro::expand] never fails, so the [Err] arm of [db_view] is
    dead: no input yields a diagnostic from the expansion stage, and any
    diagnostic the macro emits stands alone. *)
Theorem no_expand_error (parse : TokenStream -> Result ItemTrait)
    (args toks : TokenStream) :
  (forall m, exists out, expand m = Ok out) /\
  (forall out o e,
     db_view U parse args toks = Emitted out -> In (CompileError o e) out ->
     o <> ExpandError /\ out = [CompileError o e]).
Proof.
  split; [intros m; eexists; reflexivity|].
  intros out o e Ho Hin. unfold db_view in Ho.
  destruct (parse_nothing args) as [[]|e1].
  - destruct (parse toks) as [t|e2].
    + destruct (DbViewMacro_new U _ t) as [m|]; [|discriminate].
      simpl in Ho. injection Ho as <-.
      simpl in Hin. intuition discriminate.
    + injection Ho as <-. destruct Hin as [Hin|[]]. injection Hin as <- <-.
      split; [discriminate | reflexivity].
  - injection Ho as <-. destruct Hin as [Hin|[]]. injection Hin as <- <-.
    split; [discriminate | reflexivity].
Qed.

End Properties.

(** * Witnesses and counterexamples

    Run with [latin1_tables]; the ASCII inputs do not consult the tables. *)

Lemma augmented_requirements_append_witness :
  exists t out,
    sample_parse user_trait_other_tokens = Ok t /\
    db_view latin1_tables sample_parse [] user_trait_other_tokens = Emitted out /\
    exists t' rest hidden,
      out = Decl (Item_Trait t') :: rest /\
      db_view_trait_name latin1_tables (ident_display (it_ident t)) = Some hidden /\
      it_supertraits t' = it_supertraits t ++ [TPB_Trait [hidden]].
Proof.
  do 2 eexists. split; [reflexivity|]. split; [reflexivity|].
  apply (augmented_requirements_append latin1_tables sample_parse user_trait_other_tokens);
    reflexivity.
Defined.

Lemma raw_trait_expansion_panics_witness :
  exists t, sample_parse raw_trait_tokens = Ok t /\ raw (it_ident t) = true /\
    db_view latin1_tables sample_parse [] raw_trait_tokens = Panicked.
Proof.
  eexists. split; [reflexivity|]. split; [reflexivity|].
  eapply (raw_trait_expansion_panics latin1_tables sample_parse raw_trait_tokens);
    reflexivity.
Defined.

(** [pub trait Ünicode {}] is expanded. *)
Lemma hidden_trait_shape_witness :
  exists t out,
    sample_parse unicode_trait_tokens = Ok t /\
    db_view latin1_tables sample_parse [] unicode_trait_tokens = Emitted out /\
    exists augmented hidden blanket method attrs,
      out = [Decl (Item_Trait augmented); Decl (Item_Trait hidden); Decl blanket] /\
      db_view_method_name latin1_tables (ident_display (it_ident t)) = Some method /\
      it_items hidden = [TI_Fn attrs (mkSignature method [FA_RefSelf] None) None] /\
      it_vis hidden = it_vis t.
Proof.
  do 2 eexists. split; [reflexivity|]. split; [reflexivity|].
  apply (hidden_trait_shape latin1_tables sample_parse unicode_trait_tokens); reflexivity.
Defined.

(** C4 (as stated, refuted): the derived names of [UserTrait] are not the
    [__MarkerAddView...] ones. *)
Lemma marker_names_counterexample :
  ~ (db_view_trait_name latin1_tables (txt "UserTrait")
       = Some (mkIdent (txt "__MarkerAddViewUserTrait__") false) /\
     db_view_method_name latin1_tables (txt "UserTrait")
       = Some (mkIdent (txt "__marker_add_view_user_trait__") false) /\
     to_snake_case latin1_tables (txt "UserTrait") = txt "user_trait").
Proof. intros [H _]. vm_compute in H. discriminate H. Qed.

(** C6 (as stated, refuted): [to_snake_case] is not injective, so the two
    distinct identifiers [UserTrait] and [user_trait] get the same hidden
    method name [__salsa_add_view_user_trait__]. *)
Lemma method_names_collide :
  ~ (forall N M x y,
       is_ident latin1_tables N = true -> is_ident latin1_tables M = true -> N <> M ->
       (db_view_trait_name latin1_tables N = Some x \/
        db_view_method_name latin1_tables N = Some x) ->
       (db_view_trait_name latin1_tables M = Some y \/
        db_view_method_name latin1_tables M = Some y) ->
       sym x <> sym y).
Proof.
  intros H.
  apply (H (txt "UserTrait") (txt "user_trait")
           (mkIdent (txt "__salsa_add_view_user_trait__") false)
           (mkIdent (txt "__salsa_add_view_user_trait__") false));
    try reflexivity; try (right; reflexivity).
  discriminate.
Qed.

Lemma derived_names_distinct_witness :
  exists tN mN tM mM,
    UOther 220 :: txt "nicode" <> txt "UserTrait" /\
    db_view_trait_name latin1_tables (UOther 220 :: txt "nicode") = Some tN /\
    db_view_method_name latin1_tables (UOther 220 :: txt "nicode") = Some mN /\
    db_view_trait_name latin1_tables (txt "UserTrait") = Some tM /\
    db_view_method_name latin1_tables (txt "UserTrait") = Some mM /\
    sym tN <> sym tM /\ sym tN <> sym mM /\ sym mN <> sym tM.
Proof.
  do 4 eexists.
  split; [discriminate|]. split; [reflexivity|]. split; [reflexivity|].
  split; [reflexivity|]. split; [reflexivity|].
  apply (derived_names_distinct latin1_tables (UOther 220 :: txt "nicode") (txt "UserTrait"));
    try reflexivity; discriminate.
Defined.

(** C8 (as stated, refuted): the generated declarations read the input
    trait's visibility, not only its name and requirements: [pub trait
    UserTrait {}] and [trait UserTrait {}] get different hidden traits. *)
Lemma view_trait_reads_visibility :
  ~ (forall toks1 toks2 t1 t2 out1 out2,
       sample_parse toks1 = Ok t1 -> sample_parse toks2 = Ok t2 ->
       it_ident t1 = it_ident t2 -> it_supertraits t1 = it_supertraits t2 ->
       db_view latin1_tables sample_parse [] toks1 = Emitted out1 ->
       db_view latin1_tables sample_parse [] toks2 = Emitted out2 ->
       tl out1 = tl out2).
Proof.
  intros H.
  specialize (H user_trait_tokens private_user_trait_tokens _ _ _ _
                eq_refl eq_refl eq_refl eq_refl eq_refl eq_refl).
  vm_compute in H. discriminate H.
Qed.

Lemma expand_frame_witness :
  exists t out,
    sample_parse user_trait_other_tokens = Ok t /\
    db_view latin1_tables sample_parse [] user_trait_other_tokens = Emitted out /\
    exists hidden generated,
      db_view_trait_name latin1_tables (ident_display (it_ident t)) = Some hidden /\
      out = Decl (Item_Trait
                    (mkItemTrait (it_attrs t) (it_vis t) (it_unsafety t) (it_auto t)
                       (it_ident t) (it_generics t)
                       (it_supertraits t ++ [TPB_Trait [hidden]]) (it_items t)))
            :: generated /\
      forall toks2 t2 out2,
        sample_parse toks2 = Ok t2 ->
        db_view latin1_tables sample_parse [] toks2 = Emitted out2 ->
        it_ident t2 = it_ident t -> it_vis t2 = it_vis t ->
        Hygiene_from toks2 = Hygiene_from user_trait_other_tokens ->
        exists a2, out2 = a2 :: generated.
Proof.
  do 2 eexists. split; [reflexivity|]. split; [reflexivity|].
  apply (expand_frame latin1_tables sample_parse user_trait_other_tokens); reflexivity.
Defined.

Lemma db_view_deterministic_witness :
  db_view latin1_tables sample_parse [] user_trait_tokens
    = db_view latin1_tables sample_parse [] user_trait_tokens /\
  db_view_trait_name latin1_tables (txt "UserTrait")
    = db_view_trait_name latin1_tables (txt "UserTrait") /\
  db_view_method_name latin1_tables (txt "UserTrait")
    = db_view_method_name latin1_tables (txt "UserTrait").
Proof. apply db_view_deterministic; reflexivity. Defined.

Lemma argument_error_first_witness :
  span_of_unexpected_ignoring_nones x_args <> None /\
  db_view latin1_tables sample_parse x_args struct_tokens
    = db_view latin1_tables (fun _ => Err (mkError "unparsed")) x_args user_trait_tokens /\
  exists e, db_view latin1_tables sample_parse x_args struct_tokens
              = Emitted [CompileError ArgumentError e].
Proof.
  split; [discriminate|].
  apply (argument_error_first latin1_tables x_args). discriminate.
Defined.

Lemma method_name_snake_input_witness :
  snake_words [txt "user"; txt "trait"] /\
  db_view_method_name latin1_tables (join_words [txt "user"; txt "trait"])
  = Some (mkIdent (txt "__salsa_add_view_" ++ join_words [txt "user"; txt "trait"]
                   ++ txt "__") false).
Proof.
  assert (H : snake_words [txt "user"; txt "trait"])
    by (repeat constructor; discriminate).
  split; [exact H|].
  exact (method_name_snake_input latin1_tables [txt "user"; txt "trait"] H).
Defined.

Lemma blanket_impl_matches_hidden_trait_witness :
  exists t out, sample_parse user_trait_other_tokens = Ok t /\
    db_view latin1_tables sample_parse [] user_trait_other_tokens = Emitted out /\
    exists augmented hidden ty D DB i,
      out = [Decl (Item_Trait augmented); Decl (Item_Trait hidden);
             Decl (Item_AnonConst ty [Item_Use [salsa_ident; Database_ident] D; Item_Impl i])] /\
      impl_trait i = Some [it_ident hidden] /\
      last (it_supertraits augmented) (TPB_Lifetime "") = TPB_Trait [it_ident hidden] /\
      impl_generics i = mkGenerics [GP_Type DB [TPB_Trait [D]]] None /\
      impl_self_ty i = Ty_Path [DB] /\
      impl_fn_sigs i = trait_fn_sigs hidden /\
      it_supertraits hidden = [] /\ it_generics hidden = Generics_default /\
      In Attr_DocHidden (it_attrs hidden).
Proof.
  do 2 eexists. split; [reflexivity|]. split; [reflexivity|].
  eapply (blanket_impl_matches_hidden_trait latin1_tables sample_parse user_trait_other_tokens); reflexivity.
Defined.

Lemma blanket_impl_registers_input_trait_witness :
  exists t out, sample_parse user_trait_tokens = Ok t /\
    db_view latin1_tables sample_parse [] user_trait_tokens = Emitted out /\
    exists a b ty uses i attrs sig v,
      out = [Decl a; Decl b; Decl (Item_AnonConst ty (uses ++ [Item_Impl i]))] /\
      impl_items i =
        [II_Fn attrs sig
           [S_Let v (E_MethodCall E_SelfValue "views_of_self" [] []);
            S_Expr (E_MethodCall (E_Path [v]) "add" [Ty_TraitObject [it_ident t]]
                      [E_Closure t_ident (E_Path [t_ident]);
                       E_Closure t_ident (E_Path [t_ident])])]].
Proof.
  do 2 eexists. split; [reflexivity|]. split; [reflexivity|].
  apply (blanket_impl_registers_input_trait latin1_tables sample_parse user_trait_tokens); reflexivity.
Defined.

Lemma expansion_declared_names_witness :
  exists t out, sample_parse user_trait_tokens = Ok t /\
    db_view latin1_tables sample_parse [] user_trait_tokens = Emitted out /\
    exists hidden,
      db_view_trait_name latin1_tables (ident_display (it_ident t)) = Some hidden /\
      out_declared_names out = [it_ident t; hidden].
Proof.
  do 2 eexists. split; [reflexivity|]. split; [reflexivity|].
  apply (expansion_declared_names latin1_tables sample_parse user_trait_tokens); reflexivity.
Defined.
